(** * cvss/common/metrics.go: metric vectors and weighted metric vectors

    A shallow embedding of the Go package [common] of nvdtools
    ([cvss/common/metrics.go]) and the properties of its parse / serialise /
    weight-lookup operations.

    - Go [string]s are byte sequences: [string] (a list of [ascii]).
    - [map[string]string] is [gmap string string]; a Go map is a reference, so
      a method that writes to it returns the updated map here.
    - [float64] is the primitive [float]; the code only stores and returns
      weights, it never computes with them.
    - [for k, v := range m] visits the entries of [m] in an order Go leaves
      unspecified: an iteration order is any permutation of [map_to_list m]. *)

From Stdlib Require Import Ascii Floats.PrimFloat.
From stdpp Require Import gmap strings list fin_maps.

Local Open Scope string_scope.
Local Open Scope list_scope.
#[local] Set Warnings "-inexact-float".

(** ** Errors *)

(** The context that [errors.Wrapf] puts in front of an error. *)
Inductive context : Type :=
  | CtxParse                          (* "unable to parse metrics" *)
  | CtxSet (metric value : string)    (* "unable to set metric %q to %q" *)
  | CtxGet (metric : string).         (* "unable to get value for metric %q" *)

(** One constructor per [fmt.Errorf] of the file, carrying the arguments of
    its format string, and one for [errors.Wrapf]. *)
Inductive error : Type :=
  | ErrNotFound (m : string)               (* "metric %q not defined" *)
  | ErrMalformedToken (part : string)      (* "need two values separated by %s, got %q" *)
  | ErrDuplicateMetric (m : string)        (* "metric %q already set" *)
  | ErrUnknownMetric (metric : string)     (* "metric %q not defined for vector" *)
  | ErrInvalidValue (metric value : string)(* "can't set metric %q to %q" *)
  | ErrWrap (ctx : context) (err : error).

(** A Go [(T, error)] result. *)
Inductive res (A : Type) : Type :=
  | Ok (a : A)
  | Err (e : error).
Arguments Ok {A} a.
Arguments Err {A} e.

(** ** The [strings] functions the file calls *)

Definition cons_head (a : ascii) (l : list string) : list string :=
  match l with
  | [] => [String a ""]
  | h :: t => String a h :: t
  end.

(** The scan of [strings.Split] for a non-empty separator: the head of the
    result is the part being read; where [sep] starts at the current byte the
    part ends and the remaining [skip] bytes of the separator are dropped. *)
Fixpoint genSplit (sep : string) (skip : nat) (s : string) : list string :=
  match s with
  | "" => [""]
  | String a s' =>
      match skip with
      | S k => genSplit sep k s'
      | O =>
          if String.prefix sep s
          then "" :: genSplit sep (String.length sep - 1) s'
          else cons_head a (genSplit sep 0 s')
      end
  end.

(** [strings.Split(s, sep)]. The file only passes the one-byte separators
    below; for an empty [sep] Go cuts [s] after every UTF-8 sequence, which is
    rendered here byte by byte. *)
Definition Split (s sep : string) : list string :=
  match sep with
  | "" => (λ a, String a "") <$> String.list_ascii_of_string s
  | _ => genSplit sep 0 s
  end.

(** [strings.Join(elems, sep)]. *)
Fixpoint Join (elems : list string) (sep : string) : string :=
  match elems with
  | [] => ""
  | [e] => e
  | e :: rest => e +:+ sep +:+ Join rest sep
  end.

(** ** Metrics *)

Definition partSeparator : string := "/".
Definition metricSeparator : string := ":".

(** [type Metrics map[string]string] *)
Abbreviation Metrics := (gmap string string).

(** The orders in which [range ms] may visit the entries of [ms]. *)
Definition range (ms : Metrics) (order : list (string * string)) : Prop :=
  order ≡ₚ map_to_list ms.

Definition Metrics_Get (ms : Metrics) (m : string) : res string :=
  match ms !! m with
  | Some value => Ok value
  | None => Err (ErrNotFound m)
  end.

Definition Metrics_Set (ms : Metrics) (metric value : string)
  : Metrics * option error :=
  (<[metric := value]> ms, None).

(** [fmt.Sprintf("%s%s%s", metric, metricSeparator, value)] *)
Definition formatPart (kv : string * string) : string :=
  kv.1 +:+ metricSeparator +:+ kv.2.

(** The string [String] builds when [range] visits the entries in [order]. *)
Definition String_in (order : list (string * string)) : string :=
  Join (formatPart <$> order) partSeparator.

Inductive Metrics_String (ms : Metrics) : string → Prop :=
  | String_range order :
      range ms order → Metrics_String ms (String_in order).

(** The loop of [strToMetrics] over the remaining parts. *)
Fixpoint strToMetrics_loop (parts : list string) (metrics : Metrics)
  : res Metrics :=
  match parts with
  | [] => Ok metrics
  | part :: rest =>
      match Split part metricSeparator with
      | [tmp0; tmp1] =>
          match metrics !! tmp0 with
          | Some _ => Err (ErrDuplicateMetric tmp0)
          | None => strToMetrics_loop rest (<[tmp0 := tmp1]> metrics)
          end
      | _ => Err (ErrMalformedToken part)
      end
  end.

Definition strToMetrics (str : string) : res Metrics :=
  strToMetrics_loop (Split str partSeparator) ∅.

(** ** WeightsMetrics *)

Record WeightsMetrics : Type := mkWeightsMetrics {
  wmMetrics : Metrics;                      (* the embedded [Metrics] *)
  Weights : gmap string (gmap string float)
}.

(** The Go index expression [w[metric][value]]: the zero value where a key is
    missing. *)
Definition index2 (w : gmap string (gmap string float)) (metric value : string)
  : float :=
  match w !! metric with
  | Some values => default 0%float (values !! value)
  | None => 0%float
  end.

Definition with_Metrics (wms : WeightsMetrics) (ms : Metrics) : WeightsMetrics :=
  {| wmMetrics := ms; Weights := Weights wms |}.

Definition WeightsMetrics_Set (wms : WeightsMetrics) (metric value : string)
  : WeightsMetrics * option error :=
  match Weights wms !! metric with
  | None => (wms, Some (ErrUnknownMetric metric))
  | Some values =>
      match values !! value with
      | None => (wms, Some (ErrInvalidValue metric value))
      | Some _ =>
          let '(ms, err) := Metrics_Set (wmMetrics wms) metric value in
          (with_Metrics wms ms, err)
      end
  end.

(** The loop of [Parse] when [range metrics] visits [pairs] in this order. *)
Fixpoint Parse_loop (wms : WeightsMetrics) (pairs : list (string * string))
  : WeightsMetrics * option error :=
  match pairs with
  | [] => (wms, None)
  | (metric, value) :: rest =>
      match WeightsMetrics_Set wms metric value with
      | (wms', Some err) => (wms', Some (ErrWrap (CtxSet metric value) err))
      | (wms', None) => Parse_loop wms' rest
      end
  end.

Inductive WeightsMetrics_Parse (wms : WeightsMetrics) (str : string)
  : WeightsMetrics → option error → Prop :=
  | Parse_raw err :
      strToMetrics str = Err err →
      WeightsMetrics_Parse wms str wms (Some (ErrWrap CtxParse err))
  | Parse_range metrics order wms' r :
      strToMetrics str = Ok metrics →
      range metrics order →
      Parse_loop wms order = (wms', r) →
      WeightsMetrics_Parse wms str wms' r.

Definition WeightsMetrics_Weight (wms : WeightsMetrics) (metric : string)
  : res float :=
  match Metrics_Get (wmMetrics wms) metric with
  | Err err => Err (ErrWrap (CtxGet metric) err)
  | Ok value => Ok (index2 (Weights wms) metric value)
  end.

(** [WeightMust] returns or panics with the error. *)
Inductive outcome (A : Type) : Type :=
  | Returns (a : A)
  | Panics (e : error).
Arguments Returns {A} a.
Arguments Panics {A} e.

Definition WeightsMetrics_WeightMust (wms : WeightsMetrics) (metric : string)
  : outcome float :=
  match WeightsMetrics_Weight wms metric with
  | Err err => Panics err
  | Ok w => Returns w
  end.

Definition WeightsMetrics_WeightDefault (wms : WeightsMetrics)
    (metric : string) (def : float) : float :=
  match WeightsMetrics_Weight wms metric with
  | Ok w => w
  | Err _ => def
  end.

(** ** Predicates used in the statements *)

(** Does the byte [c] occur in [s]? *)
Fixpoint has_byte (c : ascii) (s : string) : bool :=
  match s with
  | "" => false
  | String a s' => Ascii.eqb a c || has_byte c s'
  end.

(** An identifier that holds neither separator. *)
Definition sep_free (s : string) : bool :=
  negb (has_byte "/" s) && negb (has_byte ":" s).

(** The token [part] splits on the metric separator into exactly the two
    strings of [kv]. *)
Definition splits_to (part : string) (kv : string * string) : Prop :=
  Split part metricSeparator = [kv.1; kv.2].

(** The pair passes the two checks of [WeightsMetrics.Set]. *)
Definition accepted (w : gmap string (gmap string float))
    (kv : string * string) : Prop :=
  ∃ values, w !! kv.1 = Some values ∧ is_Some (values !! kv.2).

(** Every stored metric is a key of [Weights] and its value a key of
    [Weights[metric]]. *)
Definition valid (wms : WeightsMetrics) : Prop :=
  map_Forall (λ metric value, accepted (Weights wms) (metric, value))
    (wmMetrics wms).

(** The states a [WeightsMetrics] created with an empty vector can be in
    after any number of [Set] and [Parse] calls. *)
Inductive reachable : WeightsMetrics → Prop :=
  | reach_new w : reachable {| wmMetrics := ∅; Weights := w |}
  | reach_Set wms metric value wms' err :
      reachable wms →
      WeightsMetrics_Set wms metric value = (wms', err) →
      reachable wms'
  | reach_Parse wms str wms' err :
      reachable wms →
      WeightsMetrics_Parse wms str wms' err →
      reachable wms'.

(** A [Metrics] built from the empty map by [Set] calls whose arguments hold
    no separator. *)
Inductive built : Metrics → Prop :=
  | built_empty : built ∅
  | built_Set ms metric value :
      built ms → sep_free metric = true → sep_free value = true →
      built (Metrics_Set ms metric value).1.

(** No name of [pairs] is a key of [acc]. *)
Definition fresh_for (acc : Metrics) (pairs : list (string * string)) : Prop :=
  ∀ k, k ∈ pairs.*1 → acc !! k = None.

(** The vector after [Metrics.Set] was called on each pair in turn. *)
Definition apply_pairs (ms : Metrics) (pairs : list (string * string))
  : Metrics :=
  foldl (λ acc kv, (Metrics_Set acc kv.1 kv.2).1) ms pairs.

(** No metric name and no value name of the table holds a separator. *)
Definition names_sep_free (w : gmap string (gmap string float)) : Prop :=
  ∀ kv, accepted w kv → sep_free kv.1 = true ∧ sep_free kv.2 = true.

(** ** Example data *)

(** The table of the specification's example:
    [{"AV": {"N": 0.85, "A": 0.62}}]. *)
Definition example_AV : gmap string float :=
  <["N" := 0.85%float]> {[ "A" := 0.62%float ]}.

Definition example_weights : gmap string (gmap string float) :=
  {[ "AV" := example_AV ]}.

Definition example_wms : WeightsMetrics :=
  {| wmMetrics := ∅; Weights := example_weights |}.

(** The example vector after [Parse("AV:N")]. *)
Definition example_parsed : WeightsMetrics :=
  {| wmMetrics := <["AV" := "N"]> ∅; Weights := example_weights |}.

(** * Splitting and joining *)

Section split_byte.
Variable c : ascii.
Let sep := String c "".

Lemma prefix_byte a s :
  String.prefix sep (String a s) = Ascii.eqb a c.
Proof.
  unfold sep. simpl. destruct (ascii_dec c a) as [->|Hne].
  - rewrite Ascii.eqb_refl. by destruct s.
  - symmetry. apply Ascii.eqb_neq. congruence.
Qed.

Lemma genSplit_cons a s :
  genSplit sep 0 (String a s) =
    if Ascii.eqb a c then "" :: genSplit sep 0 s
    else cons_head a (genSplit sep 0 s).
Proof.
  change (genSplit sep 0 (String a s)) with
    (if String.prefix sep (String a s)
     then "" :: genSplit sep 0 s else cons_head a (genSplit sep 0 s)).
  by rewrite prefix_byte.
Qed.

Lemma genSplit_free s : has_byte c s = false → genSplit sep 0 s = [s].
Proof.
  induction s as [|a s IH]; [done|].
  intros [Ha Hs]%orb_false_elim. rewrite genSplit_cons, Ha, IH; done.
Qed.

Lemma genSplit_app a b :
  has_byte c a = false →
  genSplit sep 0 (a +:+ String c b) = a :: genSplit sep 0 b.
Proof.
  induction a as [|x a IH]; intros Hfree.
  - change ("" +:+ String c b) with (String c b).
    by rewrite genSplit_cons, Ascii.eqb_refl.
  - apply orb_false_elim in Hfree as [Hx Ha].
    change (String x a +:+ String c b) with (String x (a +:+ String c b)).
    rewrite genSplit_cons, Hx, IH; done.
Qed.

Lemma genSplit_nonempty s : genSplit sep 0 s ≠ [].
Proof.
  destruct s as [|a s]; [done|]. rewrite genSplit_cons.
  destruct (Ascii.eqb a c); [done|]. by destruct (genSplit sep 0 s).
Qed.
End split_byte.

Lemma has_byte_app c a b :
  has_byte c (a +:+ b) = has_byte c a || has_byte c b.
Proof.
  induction a as [|x a IH]; [done|].
  change (String x a +:+ b) with (String x (a +:+ b)).
  simpl. by rewrite IH, orb_assoc.
Qed.

Lemma Split_formatPart k v :
  has_byte ":" k = false → has_byte ":" v = false →
  splits_to (formatPart (k, v)) (k, v).
Proof.
  intros Hk Hv. unfold splits_to, formatPart, Split, metricSeparator. simpl.
  change (":" +:+ v) with (String ":" v).
  by rewrite genSplit_app, genSplit_free.
Qed.

Lemma Split_Join parts :
  parts ≠ [] →
  Forall (λ p, has_byte "/" p = false) parts →
  Split (Join parts partSeparator) partSeparator = parts.
Proof.
  intros Hne Hall. unfold Split, partSeparator.
  induction Hall as [|p rest Hp Hrest IH]; [done|].
  destruct rest as [|q rest].
  - by apply genSplit_free.
  - change (Join (p :: q :: rest) "/")
      with (p +:+ String "/" (Join (q :: rest) "/")).
    rewrite genSplit_app by done. by rewrite IH.
Qed.

Lemma sep_free_split s :
  sep_free s = true → has_byte "/" s = false ∧ has_byte ":" s = false.
Proof.
  unfold sep_free. intros [H1 H2]%andb_prop.
  by apply negb_true_iff in H1, H2.
Qed.

(** * The loop of [strToMetrics] *)

Lemma fresh_for_cons acc k v pairs :
  fresh_for acc ((k, v) :: pairs) → NoDup (k :: pairs.*1) →
  acc !! k = None ∧ fresh_for (<[k := v]> acc) pairs.
Proof.
  intros Hfresh [Hk _]%NoDup_cons. split.
  - apply Hfresh. simpl. left.
  - intros k' Hk'. rewrite lookup_insert_ne.
    + apply Hfresh. simpl. by right.
    + by intros ->.
Qed.

(** Well-formed tokens with new, pairwise distinct names are all stored, and
    the loop goes on with the parts behind them. *)
Lemma strToMetrics_loop_app toks pairs rest :
  Forall2 splits_to toks pairs →
  NoDup pairs.*1 →
  ∀ acc, fresh_for acc pairs →
    strToMetrics_loop (toks ++ rest) acc =
    strToMetrics_loop rest (list_to_map pairs ∪ acc).
Proof.
  induction 1 as [|tok [k v] toks pairs Htok _ IH]; intros Hnd acc Hfresh.
  - simpl. by rewrite (left_id_L ∅ (∪)).
  - simpl in Hnd. destruct (fresh_for_cons _ _ _ _ Hfresh Hnd) as [Hk Hrest].
    apply NoDup_cons in Hnd as [Hnotin Hnd].
    simpl. unfold splits_to in Htok. simpl in Htok. rewrite Htok, Hk.
    rewrite IH by done. f_equal.
    rewrite <-insert_union_l. symmetry. apply insert_union_r.
    by apply not_elem_of_list_to_map_1.
Qed.

(** Some name of well-formed tokens is already stored or occurs twice: the
    loop reports a duplicate. *)
Lemma strToMetrics_loop_dup toks pairs rest :
  Forall2 splits_to toks pairs →
  ∀ acc, ¬ (NoDup pairs.*1 ∧ fresh_for acc pairs) →
    ∃ m, m ∈ pairs.*1 ∧
      strToMetrics_loop (toks ++ rest) acc = Err (ErrDuplicateMetric m).
Proof.
  induction 1 as [|tok [k v] toks pairs Htok _ IH]; intros acc Hbad.
  - destruct Hbad. split; [constructor|]. by intros k ?%elem_of_nil.
  - simpl. unfold splits_to in Htok. simpl in Htok. rewrite Htok.
    destruct (acc !! k) as [old|] eqn:Hk.
    + exists k. split; [left|done].
    + destruct (IH (<[k := v]> acc)) as (m & Hm & Hloop).
      * intros [Hnd Hfresh]. apply Hbad. split.
        -- simpl. apply NoDup_cons. split; [|done].
           intros Hin. specialize (Hfresh _ Hin).
           by rewrite lookup_insert_eq in Hfresh.
        -- intros k' [->|Hin]%elem_of_cons; [done|].
           specialize (Hfresh _ Hin).
           destruct (decide (k = k')) as [->|Hne].
           ++ by rewrite lookup_insert_eq in Hfresh.
           ++ by rewrite lookup_insert_ne in Hfresh.
      * exists m. split; [by right|done].
Qed.

Lemma fresh_for_empty pairs : fresh_for ∅ pairs.
Proof. intros k _. apply lookup_empty. Qed.

(** The entries of [list_to_map pairs] are the pairs when names are distinct. *)
Lemma lookup_pairs (pairs : list (string * string)) k v :
  NoDup pairs.*1 →
  (list_to_map pairs : Metrics) !! k = Some v ↔ (k, v) ∈ pairs.
Proof.
  intros Hnd. split.
  - apply elem_of_list_to_map_2.
  - by apply elem_of_list_to_map_1.
Qed.

(** Parsing what [String] wrote in some order gives the map of the pairs. *)
Lemma strToMetrics_String_in order :
  order ≠ [] →
  Forall (λ kv, sep_free kv.1 = true ∧ sep_free kv.2 = true) order →
  NoDup order.*1 →
  strToMetrics (String_in order) = Ok (list_to_map order).
Proof.
  intros Hne Hfree Hnd. unfold strToMetrics, String_in.
  rewrite Split_Join.
  - rewrite <-(app_nil_r (formatPart <$> order)).
    rewrite (strToMetrics_loop_app _ order []); [| |done|apply fresh_for_empty].
    + simpl. by rewrite (right_id_L ∅ (∪)).
    + apply Forall2_fmap_l, Forall_Forall2_diag.
      eapply Forall_impl; [exact Hfree|].
      intros [k v] [[_ Hk]%sep_free_split [_ Hv]%sep_free_split].
      by apply Split_formatPart.
  - by destruct order.
  - apply Forall_fmap. eapply Forall_impl; [exact Hfree|].
    intros [k v] [[Hk _]%sep_free_split [Hv _]%sep_free_split].
    unfold formatPart, metricSeparator. simpl in *.
    change (":" +:+ v) with (String ":" v).
    rewrite has_byte_app. simpl. by rewrite Hk, Hv.
Qed.

(** * Metrics: Get, Set, String *)

Lemma range_NoDup ms order : range ms order → NoDup order.*1.
Proof.
  unfold range. intros ->. apply NoDup_fst_map_to_list.
Qed.

Lemma range_list_to_map ms order : range ms order → list_to_map order = ms.
Proof.
  intros Hperm. transitivity (list_to_map (map_to_list ms) : Metrics).
  - apply list_to_map_proper; [by eapply range_NoDup|done].
  - apply list_to_map_to_list.
Qed.

Lemma range_elem_of ms order k v :
  range ms order → (k, v) ∈ order ↔ ms !! k = Some v.
Proof.
  unfold range. intros Hperm. rewrite Hperm. apply elem_of_map_to_list.
Qed.

Lemma range_empty order : range ∅ order → order = [].
Proof.
  unfold range. rewrite map_to_list_empty. apply Permutation_nil_r.
Qed.

Lemma Metrics_String_empty s : Metrics_String ∅ s ↔ s = "".
Proof.
  split.
  - intros [order ->%range_empty]. done.
  - intros ->. apply (String_range ∅ []). unfold range.
    by rewrite map_to_list_empty.
Qed.

Lemma built_sep_free ms :
  built ms →
  map_Forall (λ k v, sep_free k = true ∧ sep_free v = true) ms.
Proof.
  induction 1 as [|ms metric value _ IH Hm Hv].
  - apply map_Forall_empty.
  - simpl. by apply map_Forall_insert_2.
Qed.


(** C9. Parsing the empty string fails with MalformedToken on the single
    token [""]; the only string [String] gives for the empty [Metrics] is
    [""], so the empty vector does not survive [String] then
    [strToMetrics]. *)
Theorem strToMetrics_empty_string :
  Split "" partSeparator = [""] ∧
  Split "" metricSeparator ≠ ["" ; ""] ∧
  strToMetrics "" = Err (ErrMalformedToken "") ∧
  Metrics_String ∅ "" ∧
  ∀ s, Metrics_String ∅ s → s = "" ∧ strToMetrics s ≠ Ok ∅.
Proof.
  split; [done|]. split; [done|]. split; [done|].
  split; [by apply Metrics_String_empty|].
  intros s ->%Metrics_String_empty. by split.
Qed.

(** C10. [strToMetrics] accepts empty identifiers: [":"] parses to the map
    that sends the empty name to the empty value, and a token [x:y] splits
    into [x] and [y] and parses to [{x: y}] also when [x] or [y] is empty. *)
Theorem strToMetrics_empty_identifiers :
  strToMetrics ":" = Ok {[ "" := "" ]} ∧
  (∀ y, has_byte ":" y = false → splits_to (":" +:+ y) ("", y)) ∧
  (∀ x, has_byte ":" x = false → splits_to (x +:+ ":") (x, "")) ∧
  (∀ y, sep_free y = true → strToMetrics (":" +:+ y) = Ok {[ "" := y ]}) ∧
  (∀ x, sep_free x = true → strToMetrics (x +:+ ":") = Ok {[ x := "" ]}).
Proof.
  assert (Hone : ∀ x y, sep_free x = true → sep_free y = true →
            strToMetrics (x +:+ ":" +:+ y) = Ok {[ x := y ]}).
  { intros x y Hx Hy.
    change (x +:+ ":" +:+ y) with (String_in [(x, y)]).
    rewrite strToMetrics_String_in.
    - simpl. by rewrite insert_empty.
    - done.
    - by repeat constructor.
    - simpl. apply NoDup_singleton. }
  split; [done|]. split; [|split; [|split]].
  - intros y Hy. by apply (Split_formatPart "" y).
  - intros x Hx. by apply (Split_formatPart x "").
  - intros y Hy. by apply (Hone "" y).
  - intros x Hx. by apply (Hone x "").
Qed.

Lemma strToMetrics_empty_identifiers_witness :
  strToMetrics ":N" = Ok {[ "" := "N" ]} ∧
  strToMetrics "AV:" = Ok {[ "AV" := "" ]} ∧
  splits_to ":N" ("", "N") ∧ splits_to "AV:" ("AV", "").
Proof.
  destruct strToMetrics_empty_identifiers as (_ & H1 & H2 & H3 & H4).
  split; [|split; [|split]].
  - apply (H3 "N"). reflexivity.
  - apply (H4 "AV"). reflexivity.
  - apply (H1 "N"). reflexivity.
  - apply (H2 "AV"). reflexivity.
Defined.

Lemma strToMetrics_empty_string_witness :
  "" = "" ∧ strToMetrics "" ≠ Ok ∅.
Proof.
  destruct strToMetrics_empty_string as (_ & _ & _ & Hs & H).
  apply (H ""). exact Hs.
Defined.

(** C1 (as amended). A [Metrics] that is not empty and was built by [Set]
    calls whose names and values hold neither separator is returned unchanged
    by [strToMetrics] from whatever string [String] gives for it, in every
    order [range] may visit its entries. *)
Theorem String_strToMetrics_round_trip (ms : Metrics) (s : string) :
  built ms → ms ≠ ∅ → Metrics_String ms s → strToMetrics s = Ok ms.
Proof.
  intros Hbuilt Hne [order Horder].
  rewrite strToMetrics_String_in.
  - f_equal. by apply range_list_to_map.
  - intros ->. apply Hne. unfold range in Horder. symmetry in Horder.
    apply Permutation_nil_r in Horder. by apply map_to_list_empty_iff.
  - apply Forall_forall. intros [k v] Hkv.
    apply (range_elem_of _ _ _ _ Horder) in Hkv.
    by apply (built_sep_free ms Hbuilt k v).
  - by eapply range_NoDup.
Qed.

Lemma String_strToMetrics_round_trip_witness :
  strToMetrics "AV:N/C:H" = Ok (<["AV" := "N"]> (<["C" := "H"]> ∅)).
Proof.
  apply (String_strToMetrics_round_trip
           (<["AV" := "N"]> (<["C" := "H"]> ∅)) "AV:N/C:H").
  - apply (built_Set _ "AV" "N"); [|reflexivity|reflexivity].
    apply (built_Set _ "C" "H"); [|reflexivity|reflexivity].
    apply built_empty.
  - intros Heq. apply (f_equal (λ m : Metrics, m !! "AV")) in Heq.
    vm_compute in Heq. discriminate Heq.
  - apply (String_range _ [("AV", "N"); ("C", "H")]).
    unfold range. vm_compute. apply perm_swap.
Defined.

(** C1, counterexample. The empty [Metrics] is built by (no) [Set] calls,
    [String] gives [""] for it, and [strToMetrics] rejects [""]: the round
    trip does not hold for every built vector. *)
Lemma String_strToMetrics_round_trip_empty :
  ¬ (∀ (ms : Metrics) (s : string),
       built ms → Metrics_String ms s → strToMetrics s = Ok ms).
Proof.
  intros Hclaim.
  specialize (Hclaim ∅ "" built_empty (proj2 (Metrics_String_empty "") eq_refl)).
  discriminate Hclaim.
Qed.

(** A name that holds a separator is not read back either: [Set("A:B", "C")]
    is written as ["A:B:C"], which [strToMetrics] rejects, and
    [Set("A", "B/C:D")] is written as ["A:B/C:D"], which parses to another
    map. *)
Example String_strToMetrics_separator_in_identifier :
  Metrics_String (Metrics_Set ∅ "A:B" "C").1 "A:B:C" ∧
  strToMetrics "A:B:C" = Err (ErrMalformedToken "A:B:C") ∧
  Metrics_String (Metrics_Set ∅ "A" "B/C:D").1 "A:B/C:D" ∧
  strToMetrics "A:B/C:D" = Ok (<["A" := "B"]> (<["C" := "D"]> ∅)).
Proof.
  split; [|split; [|split]].
  - apply (String_range _ [("A:B", "C")]). unfold range. by vm_compute.
  - reflexivity.
  - apply (String_range _ [("A", "B/C:D")]). unfold range. by vm_compute.
  - vm_compute. reflexivity.
Qed.

(** * WeightsMetrics: Set, Weight, WeightDefault *)



(** C7. [WeightDefault] is a total function: for a metric that is not set it
    returns the default it was given, and for a metric set to [v] it returns
    [Weights[metric][v]]. *)
Theorem WeightsMetrics_WeightDefault_cases
    (wms : WeightsMetrics) (metric : string) (def : float) :
  (wmMetrics wms !! metric = None →
     WeightsMetrics_WeightDefault wms metric def = def) ∧
  (∀ v, wmMetrics wms !! metric = Some v →
     WeightsMetrics_WeightDefault wms metric def =
       index2 (Weights wms) metric v) ∧
  (∀ v values w, wmMetrics wms !! metric = Some v →
     Weights wms !! metric = Some values → values !! v = Some w →
     WeightsMetrics_WeightDefault wms metric def = w).
Proof.
  unfold WeightsMetrics_WeightDefault, WeightsMetrics_Weight, Metrics_Get.
  repeat split.
  - by intros ->.
  - by intros v ->.
  - intros v values w -> Hm Hv. unfold index2. by rewrite Hm, Hv.
Qed.

Lemma WeightsMetrics_WeightDefault_cases_witness :
  WeightsMetrics_WeightDefault example_wms "AV" 1.5%float = 1.5%float ∧
  WeightsMetrics_WeightDefault
    (WeightsMetrics_Set example_wms "AV" "A").1 "AV" 1.5%float = 0.62%float ∧
  WeightsMetrics_WeightDefault
    (WeightsMetrics_Set example_wms "AV" "A").1 "AV" 1.5%float =
    index2 example_weights "AV" "A".
Proof.
  split; [|split].
  - apply (proj1 (WeightsMetrics_WeightDefault_cases example_wms "AV" 1.5)).
    reflexivity.
  - apply (proj2 (proj2 (WeightsMetrics_WeightDefault_cases
             (WeightsMetrics_Set example_wms "AV" "A").1 "AV" 1.5))
             "A" example_AV 0.62%float).
    + reflexivity.
    + reflexivity.
    + reflexivity.
  - apply (proj1 (proj2 (WeightsMetrics_WeightDefault_cases
             (WeightsMetrics_Set example_wms "AV" "A").1 "AV" 1.5)) "A").
    reflexivity.
Defined.

(** * strToMetrics: the two errors *)

Lemma Forall2_splits_to_snoc toks pairs tok kv :
  Forall2 splits_to toks pairs → splits_to tok kv →
  Forall2 splits_to (toks ++ [tok]) (pairs ++ [kv]).
Proof. intros Htoks Htok. apply Forall2_app; [done|]. by repeat constructor. Qed.

(** [Parse] of a string that [strToMetrics] rejects has one outcome: the
    wrapped error, and the vector as it was. *)
Lemma WeightsMetrics_Parse_raw_error wms str e :
  strToMetrics str = Err e →
  WeightsMetrics_Parse wms str wms (Some (ErrWrap CtxParse e)) ∧
  ∀ wms' r, WeightsMetrics_Parse wms str wms' r →
    wms' = wms ∧ r = Some (ErrWrap CtxParse e).
Proof.
  intros Hraw. split; [by constructor|].
  intros wms' r Hparse. destruct Hparse as [e' He'|? ? ? ? Hok _ _]; [|congruence].
  rewrite Hraw in He'. by injection He' as ->.
Qed.

(** C4 (as amended). When a token carries a metric name that a token before
    it carries too, and every token before it splits on [:] into two parts,
    [strToMetrics] fails with DuplicateMetric (for that name when the names
    before it are pairwise distinct); [Parse] of such a string returns the
    wrapped error and leaves the vector as it was. *)
Theorem strToMetrics_duplicate
    (str : string) (toks : list string) (tok : string) (rest : list string)
    (pairs : list (string * string)) (m v v' : string) :
  Split str partSeparator = toks ++ tok :: rest →
  Forall2 splits_to toks pairs →
  (m, v) ∈ pairs →
  splits_to tok (m, v') →
  ∃ m',
    strToMetrics str = Err (ErrDuplicateMetric m') ∧
    (NoDup pairs.*1 → m' = m) ∧
    ∀ wms,
      WeightsMetrics_Parse wms str wms
        (Some (ErrWrap CtxParse (ErrDuplicateMetric m'))) ∧
      ∀ wms' r, WeightsMetrics_Parse wms str wms' r →
        wms' = wms ∧ r = Some (ErrWrap CtxParse (ErrDuplicateMetric m')).
Proof.
  intros Hsplit Htoks Hin Htok.
  assert (Hm : m ∈ pairs.*1).
  { apply list_elem_of_fmap. by exists (m, v). }
  destruct (strToMetrics_loop_dup (toks ++ [tok]) (pairs ++ [(m, v')]) rest
              (Forall2_splits_to_snoc _ _ _ _ Htoks Htok) ∅)
    as (m' & _ & Hloop).
  { intros [Hnd _]. rewrite fmap_app in Hnd.
    apply NoDup_app in Hnd as (_ & Hdisj & _).
    apply (Hdisj m Hm). simpl. left. }
  rewrite <-app_assoc in Hloop. simpl in Hloop.
  assert (Hraw : strToMetrics str = Err (ErrDuplicateMetric m')).
  { unfold strToMetrics. by rewrite Hsplit. }
  exists m'. split; [done|]. split.
  - intros Hnd. clear Hloop. unfold strToMetrics in Hraw.
    rewrite Hsplit in Hraw.
    rewrite (strToMetrics_loop_app toks pairs) in Hraw;
      [|done|done|apply fresh_for_empty].
    simpl in Hraw. unfold splits_to in Htok. simpl in *. rewrite Htok in Hraw.
    rewrite (right_id_L ∅ (∪)) in Hraw.
    rewrite (proj2 (lookup_pairs pairs m v Hnd) Hin) in Hraw. congruence.
  - intros wms. by apply WeightsMetrics_Parse_raw_error.
Qed.

Lemma strToMetrics_duplicate_witness :
  ∃ m',
    strToMetrics "AV:N/AV:A" = Err (ErrDuplicateMetric m') ∧
    (NoDup [("AV", "N")].*1 → m' = "AV") ∧
    ∀ wms,
      WeightsMetrics_Parse wms "AV:N/AV:A" wms
        (Some (ErrWrap CtxParse (ErrDuplicateMetric m'))) ∧
      ∀ wms' r, WeightsMetrics_Parse wms "AV:N/AV:A" wms' r →
        wms' = wms ∧ r = Some (ErrWrap CtxParse (ErrDuplicateMetric m')).
Proof.
  apply (strToMetrics_duplicate "AV:N/AV:A" ["AV:N"] "AV:A" []
           [("AV", "N")] "AV" "N" "A").
  - reflexivity.
  - repeat constructor.
  - left.
  - reflexivity.
Defined.

(** C4, counterexample. In ["A:B/C/A:D"] the name [A] is carried by two
    tokens, but the token [C] between them has no [:], and parsing fails
    with MalformedToken, not DuplicateMetric. *)
Lemma strToMetrics_duplicate_behind_malformed :
  Split "A:B/C/A:D" partSeparator = ["A:B"; "C"; "A:D"] ∧
  splits_to "A:B" ("A", "B") ∧ splits_to "A:D" ("A", "D") ∧
  strToMetrics "A:B/C/A:D" = Err (ErrMalformedToken "C") ∧
  ∀ m, strToMetrics "A:B/C/A:D" ≠ Err (ErrDuplicateMetric m).
Proof. repeat split; done. Qed.

(** C5 (as amended). When a token does not split on [:] into exactly two
    parts and the tokens before it do, with pairwise distinct names,
    [strToMetrics] fails with MalformedToken for that token; when every token
    splits into two parts and the names are pairwise distinct, it succeeds
    and the map it returns holds exactly the parsed pairs. *)
Theorem strToMetrics_malformed_or_pairs (str : string) :
  (∀ toks bad rest pairs,
     Split str partSeparator = toks ++ bad :: rest →
     Forall2 splits_to toks pairs → NoDup pairs.*1 →
     length (Split bad metricSeparator) ≠ 2 →
     strToMetrics str = Err (ErrMalformedToken bad)) ∧
  (∀ pairs,
     Forall2 splits_to (Split str partSeparator) pairs → NoDup pairs.*1 →
     ∃ metrics, strToMetrics str = Ok metrics ∧
       metrics = list_to_map pairs ∧
       ∀ k v, metrics !! k = Some v ↔ (k, v) ∈ pairs).
Proof.
  split.
  - intros toks bad rest pairs Hsplit Htoks Hnd Hbad.
    unfold strToMetrics. rewrite Hsplit.
    rewrite (strToMetrics_loop_app toks pairs);
      [|done|done|apply fresh_for_empty].
    cbn [strToMetrics_loop].
    by destruct (Split bad metricSeparator) as [|a [|b [|c l]]].
  - intros pairs Htoks Hnd. exists (list_to_map pairs). split; [|split].
    + unfold strToMetrics.
      rewrite <-(app_nil_r (Split str partSeparator)).
      rewrite (strToMetrics_loop_app _ pairs);
        [|done|done|apply fresh_for_empty].
      simpl. by rewrite (right_id_L ∅ (∪)).
    + done.
    + intros k v. by apply lookup_pairs.
Qed.

Lemma strToMetrics_malformed_or_pairs_witness :
  strToMetrics "A:B/C" = Err (ErrMalformedToken "C") ∧
  strToMetrics "A:B:C" = Err (ErrMalformedToken "A:B:C") ∧
  ∃ metrics, strToMetrics "A:B/C:D" = Ok metrics ∧
    metrics = list_to_map [("A", "B"); ("C", "D")] ∧
    ∀ k v, metrics !! k = Some v ↔ (k, v) ∈ [("A", "B"); ("C", "D")].
Proof.
  split; [|split].
  - apply (proj1 (strToMetrics_malformed_or_pairs "A:B/C")
             ["A:B"] "C" [] [("A", "B")]).
    + reflexivity.
    + repeat constructor.
    + apply NoDup_singleton.
    + vm_compute. lia.
  - apply (proj1 (strToMetrics_malformed_or_pairs "A:B:C") [] "A:B:C" [] []).
    + reflexivity.
    + constructor.
    + constructor.
    + vm_compute. lia.
  - apply (proj2 (strToMetrics_malformed_or_pairs "A:B/C:D")
             [("A", "B"); ("C", "D")]).
    + repeat constructor.
    + apply NoDup_cons. split; [|apply NoDup_singleton].
      intros Hin. apply list_elem_of_singleton in Hin. discriminate Hin.
Defined.

(** C5, counterexample. ["A:B/A:C/D"] holds the token [D], which has no [:],
    but the repeated name [A] is met first and parsing fails with
    DuplicateMetric, not MalformedToken. *)
Lemma strToMetrics_malformed_behind_duplicate :
  Split "A:B/A:C/D" partSeparator = ["A:B"; "A:C"; "D"] ∧
  Split "D" metricSeparator = ["D"] ∧
  strToMetrics "A:B/A:C/D" = Err (ErrDuplicateMetric "A") ∧
  ∀ part, strToMetrics "A:B/A:C/D" ≠ Err (ErrMalformedToken part).
Proof. repeat split; done. Qed.

(** * WeightsMetrics: Parse and the reachable states *)

Lemma apply_pairs_notin pairs k :
  k ∉ pairs.*1 → ∀ ms, apply_pairs ms pairs !! k = ms !! k.
Proof.
  induction pairs as [|[k' v'] pairs IH]; intros Hk ms; [done|].
  apply not_elem_of_cons in Hk as [Hne Hk].
  simpl. rewrite (IH Hk). by apply lookup_insert_ne.
Qed.

Lemma apply_pairs_in pairs k v :
  NoDup pairs.*1 → (k, v) ∈ pairs →
  ∀ ms, apply_pairs ms pairs !! k = Some v.
Proof.
  induction pairs as [|[k' v'] pairs IH]; intros Hnd Hin ms.
  - by apply elem_of_nil in Hin.
  - simpl in Hnd. apply NoDup_cons in Hnd as [Hnotin Hnd].
    apply elem_of_cons in Hin as [[= <- <-]|Hin].
    + simpl. rewrite apply_pairs_notin by done. apply lookup_insert_eq.
    + simpl. by apply IH.
Qed.

(** What one call of [WeightsMetrics.Set] does. *)
Lemma WeightsMetrics_Set_inv wms metric value wms' r :
  WeightsMetrics_Set wms metric value = (wms', r) →
  Weights wms' = Weights wms ∧
  ((r = None ∧ accepted (Weights wms) (metric, value) ∧
    wmMetrics wms' = (Metrics_Set (wmMetrics wms) metric value).1) ∨
   (wms' = wms ∧ ¬ accepted (Weights wms) (metric, value) ∧
    (r = Some (ErrUnknownMetric metric) ∨
     r = Some (ErrInvalidValue metric value)))).
Proof.
  unfold WeightsMetrics_Set, accepted. simpl.
  destruct (Weights wms !! metric) as [values|] eqn:Hm.
  - destruct (values !! value) as [w|] eqn:Hv; intros [= <- <-].
    + split; [done|]. left. split; [done|]. split; [|done].
      exists values. by rewrite Hv.
    + split; [done|]. right. split; [done|]. split; [|by right].
      intros (values' & [= <-] & Hsome). rewrite Hv in Hsome.
      by destruct Hsome.
  - intros [= <- <-]. split; [done|]. right. split; [done|].
    split; [|by left]. by intros (values' & [=] & _).
Qed.

(** What the loop of [Parse] does over the pairs in the order given. *)
Lemma Parse_loop_inv pairs :
  ∀ wms wms' r, Parse_loop wms pairs = (wms', r) →
  Weights wms' = Weights wms ∧
  match r with
  | None =>
      Forall (accepted (Weights wms)) pairs ∧
      wmMetrics wms' = apply_pairs (wmMetrics wms) pairs
  | Some err =>
      ∃ applied metric value skipped e,
        pairs = applied ++ (metric, value) :: skipped ∧
        Forall (accepted (Weights wms)) applied ∧
        ¬ accepted (Weights wms) (metric, value) ∧
        WeightsMetrics_Set wms' metric value = (wms', Some e) ∧
        (e = ErrUnknownMetric metric ∨ e = ErrInvalidValue metric value) ∧
        err = ErrWrap (CtxSet metric value) e ∧
        wmMetrics wms' = apply_pairs (wmMetrics wms) applied
  end.
Proof.
  induction pairs as [|[k v] pairs IH]; intros wms wms' r.
  - intros [= <- <-]. by repeat split.
  - simpl.
    destruct (WeightsMetrics_Set wms k v) as [wms1 [e|]] eqn:Hset;
      destruct (WeightsMetrics_Set_inv _ _ _ _ _ Hset)
        as [Hw [(Hr & Hacc & Hms)|(-> & Hacc & He)]]; try done.
    + intros [= <- <-]. split; [done|].
      exists [], k, v, pairs, e. repeat split; try done.
      by destruct He as [[= ->]|[= ->]]; [left|right].
    + intros Hloop. apply IH in Hloop as [Hw' Hloop]. rewrite Hw in Hw', Hloop.
      split; [done|]. destruct r as [err|].
      * destruct Hloop
          as (applied & m & x & skipped & e & -> & Happ & Hrej & Hfail
              & He & -> & Hms').
        exists ((k, v) :: applied), m, x, skipped, e.
        repeat split; try done.
        -- by constructor.
        -- by rewrite Hms', Hms.
      * destruct Hloop as [Hall Hms']. split; [by constructor|].
        by rewrite Hms', Hms.
    + destruct He as [[=]|[=]].
Qed.

(** Pairs that pass the checks are all applied. *)
Lemma Parse_loop_accepted pairs :
  ∀ wms, Forall (accepted (Weights wms)) pairs →
  Parse_loop wms pairs =
    (with_Metrics wms (apply_pairs (wmMetrics wms) pairs), None).
Proof.
  induction pairs as [|[k v] pairs IH]; intros wms Hall.
  - by destruct wms.
  - apply Forall_cons in Hall as [(values & Hm & [w Hv]) Hall].
    simpl in *. unfold WeightsMetrics_Set. rewrite Hm, Hv. simpl.
    by rewrite IH.
Qed.

(** The loop stops at the first pair that does not pass. *)
Lemma Parse_loop_rejected applied metric value skipped wms :
  Forall (accepted (Weights wms)) applied →
  ¬ accepted (Weights wms) (metric, value) →
  ∃ e, (e = ErrUnknownMetric metric ∨ e = ErrInvalidValue metric value) ∧
    Parse_loop wms (applied ++ (metric, value) :: skipped) =
      (with_Metrics wms (apply_pairs (wmMetrics wms) applied),
       Some (ErrWrap (CtxSet metric value) e)).
Proof.
  revert wms. induction applied as [|[k v] applied IH]; intros wms Hall Hrej.
  - simpl. destruct (WeightsMetrics_Set wms metric value) as [wms1 r] eqn:Hset.
    destruct (WeightsMetrics_Set_inv _ _ _ _ _ Hset)
      as [_ [(_ & Hacc & _)|(-> & _ & He)]]; [done|].
    destruct wms as [ms w].
    destruct He as [-> | ->]; eexists; (split; [|reflexivity]);
      [by left|by right].
  - apply Forall_cons in Hall as [(values & Hm & [w Hv]) Hall].
    simpl in *. unfold WeightsMetrics_Set at 1. rewrite Hm, Hv. simpl.
    destruct (IH (with_Metrics wms (<[k := v]> (wmMetrics wms))) Hall Hrej)
      as (e & He & Hloop).
    exists e. split; [done|]. by rewrite Hloop.
Qed.



(** The same string when [range] visits [XX] first: nothing is stored. *)
Example WeightsMetrics_Parse_rejected_first :
  WeightsMetrics_Parse example_wms "AV:N/XX:Y" example_wms
    (Some (ErrWrap (CtxSet "XX" "Y") (ErrUnknownMetric "XX"))).
Proof.
  apply (Parse_range example_wms "AV:N/XX:Y"
           (<["XX" := "Y"]> (<["AV" := "N"]> ∅)) [("XX", "Y"); ("AV", "N")]).
  - reflexivity.
  - unfold range. vm_compute. apply perm_swap.
  - reflexivity.
Qed.

(** [Set] and [Parse] keep the state valid. *)
Lemma valid_apply_pairs w ms pairs :
  map_Forall (λ metric value, accepted w (metric, value)) ms →
  Forall (accepted w) pairs →
  map_Forall (λ metric value, accepted w (metric, value)) (apply_pairs ms pairs).
Proof.
  intros Hms Hall. revert ms Hms.
  induction Hall as [|[k v] pairs Hkv _ IH]; intros ms Hms; [done|].
  simpl. apply IH. by apply map_Forall_insert_2.
Qed.

Lemma valid_Set wms metric value wms' r :
  valid wms → WeightsMetrics_Set wms metric value = (wms', r) → valid wms'.
Proof.
  intros Hvalid Hset. unfold valid in *.
  destruct (WeightsMetrics_Set_inv _ _ _ _ _ Hset)
    as [Hw [(_ & Hacc & Hms)|(-> & _)]]; [|done].
  rewrite Hw, Hms. simpl. by apply map_Forall_insert_2.
Qed.

Lemma valid_Parse wms str wms' r :
  valid wms → WeightsMetrics_Parse wms str wms' r → valid wms'.
Proof.
  intros Hvalid [e _|metrics order wms1 r1 _ _ Hloop]; [done|].
  unfold valid in *. apply Parse_loop_inv in Hloop as [Hw Hloop].
  rewrite Hw. destruct r1 as [err|].
  - destruct Hloop as (applied & m & x & skipped & e & _ & Hacc & _ & _ & _
                       & _ & ->).
    by apply valid_apply_pairs.
  - destruct Hloop as [Hacc ->]. by apply valid_apply_pairs.
Qed.

Lemma reachable_valid wms : reachable wms → valid wms.
Proof.
  induction 1 as [w|wms metric value wms' err _ IH Hset
                  |wms str wms' err _ IH Hparse].
  - apply map_Forall_empty.
  - by eapply valid_Set.
  - by eapply valid_Parse.
Qed.

(** A metric that is set stays set: no operation removes a key. *)
Lemma apply_pairs_keeps pairs k :
  ∀ ms, is_Some (ms !! k) → is_Some (apply_pairs ms pairs !! k).
Proof.
  induction pairs as [|[k' v'] pairs IH]; intros ms Hk; [done|].
  simpl. apply IH. by apply lookup_insert_is_Some'; right.
Qed.

Lemma set_metric_stays_set wms wms' k :
  is_Some (wmMetrics wms !! k) →
  (∃ metric value r, WeightsMetrics_Set wms metric value = (wms', r)) ∨
  (∃ str r, WeightsMetrics_Parse wms str wms' r) →
  is_Some (wmMetrics wms' !! k).
Proof.
  intros Hk [(metric & value & r & Hset)|(str & r & Hparse)].
  - destruct (WeightsMetrics_Set_inv _ _ _ _ _ Hset)
      as [_ [(_ & _ & ->)|(-> & _)]]; [|done].
    by apply (apply_pairs_keeps [(metric, value)]).
  - destruct Hparse as [e _|metrics order wms1 r1 _ _ Hloop]; [done|].
    apply Parse_loop_inv in Hloop as [_ Hloop]. destruct r1 as [err|].
    + destruct Hloop as (applied & m & x & skipped & e & _ & _ & _ & _ & _
                         & _ & ->).
      by apply apply_pairs_keeps.
    + destruct Hloop as [_ ->]. by apply apply_pairs_keeps.
Qed.

(** C2. In every state reached from the empty vector through [Set] and
    [Parse], each stored metric is a key of [Weights] and its value a key of
    [Weights[metric]]; so for a metric that is set, [Weight] returns the
    weight the table holds for the value [Get] returns, and [Weight] fails,
    with the wrapped NotFound of [Get], exactly for the metrics that are not
    set. *)
Theorem reachable_Weight (wms : WeightsMetrics) :
  reachable wms →
  valid wms ∧
  (∀ m v, wmMetrics wms !! m = Some v →
     ∃ values w,
       Weights wms !! m = Some values ∧ values !! v = Some w ∧
       Metrics_Get (wmMetrics wms) m = Ok v ∧
       WeightsMetrics_Weight wms m = Ok w) ∧
  (∀ m, wmMetrics wms !! m = None ↔
     WeightsMetrics_Weight wms m = Err (ErrWrap (CtxGet m) (ErrNotFound m))) ∧
  (∀ m e, WeightsMetrics_Weight wms m = Err e →
     e = ErrWrap (CtxGet m) (ErrNotFound m) ∧ wmMetrics wms !! m = None).
Proof.
  intros Hvalid%reachable_valid. split; [done|].
  unfold WeightsMetrics_Weight, Metrics_Get. split; [|split].
  - intros m v Hm. destruct (Hvalid m v Hm) as (values & Hw & [w Hv]).
    simpl in Hw, Hv. exists values, w. rewrite Hm. unfold index2.
    by rewrite Hw, Hv.
  - intros m. by destruct (wmMetrics wms !! m).
  - intros m e. by destruct (wmMetrics wms !! m); intros [= <-].
Qed.

Lemma example_parsed_reachable : reachable example_parsed.
Proof.
  apply (reach_Parse example_wms "AV:N" example_parsed None).
  - apply reach_new.
  - apply (Parse_range example_wms "AV:N" (<["AV" := "N"]> ∅) [("AV", "N")]).
    + reflexivity.
    + unfold range. vm_compute. apply Permutation_refl.
    + reflexivity.
Defined.

Lemma reachable_Weight_witness :
  (∃ values w,
     Weights example_parsed !! "AV" = Some values ∧ values !! "N" = Some w ∧
     Metrics_Get (wmMetrics example_parsed) "AV" = Ok "N" ∧
     WeightsMetrics_Weight example_parsed "AV" = Ok w) ∧
  WeightsMetrics_Weight example_parsed "AC" =
    Err (ErrWrap (CtxGet "AC") (ErrNotFound "AC")).
Proof.
  destruct (reachable_Weight example_parsed example_parsed_reachable)
    as (_ & Hset & Hunset & _).
  split.
  - apply (Hset "AV" "N"). reflexivity.
  - apply (proj1 (Hunset "AC")). reflexivity.
Defined.

(** The example of the specification: with the table
    [{"AV": {"N": 0.85, "A": 0.62}}], after [Set("AV", "N")] the weight of
    [AV] is [0.85]. *)
Example Weight_after_Set :
  WeightsMetrics_Set example_wms "AV" "N" = (example_parsed, None) ∧
  WeightsMetrics_Weight example_parsed "AV" = Ok 0.85%float ∧
  WeightsMetrics_WeightMust example_parsed "AV" = Returns 0.85%float ∧
  WeightsMetrics_WeightMust example_wms "AV" =
    Panics (ErrWrap (CtxGet "AV") (ErrNotFound "AV")).
Proof. repeat split; reflexivity. Qed.

(** * What [strToMetrics] returns *)

Section split_join_byte.
Variable c : ascii.

(** No part of a split holds the separator. *)
Lemma genSplit_parts_free s :
  Forall (λ p, has_byte c p = false) (genSplit (String c "") 0 s).
Proof.
  induction s as [|a s IH]; [by repeat constructor|].
  rewrite genSplit_cons. destruct (Ascii.eqb a c) eqn:Ha.
  - by constructor.
  - destruct (genSplit (String c "") 0 s) as [|h t]; simpl.
    + repeat constructor. simpl. by rewrite Ha.
    + apply Forall_cons in IH as [Hh Ht]. constructor; [|done].
      simpl. by rewrite Ha, Hh.
Qed.

(** Joining the parts of a split gives the string back. *)
Lemma Join_genSplit s : Join (genSplit (String c "") 0 s) (String c "") = s.
Proof.
  induction s as [|a s IH]; [done|].
  rewrite genSplit_cons. pose proof (genSplit_nonempty c s) as Hne.
  destruct (genSplit (String c "") 0 s) as [|h t]; [done|].
  destruct (Ascii.eqb a c) eqn:Ha.
  - apply Ascii.eqb_eq in Ha as ->.
    change (Join ("" :: h :: t) (String c "")) with (String c (Join (h :: t) (String c ""))).
    by rewrite IH.
  - simpl cons_head. destruct t as [|h' t].
    + simpl in *. by rewrite IH.
    + change (Join (String a h :: h' :: t) (String c ""))
        with (String a (Join (h :: h' :: t) (String c ""))).
      by rewrite IH.
Qed.
End split_join_byte.

(** A token that splits into [k] and [v] is [k:v], and neither holds a [:]. *)
Lemma splits_to_inv tok k v :
  splits_to tok (k, v) →
  tok = formatPart (k, v) ∧ has_byte ":" k = false ∧ has_byte ":" v = false.
Proof.
  unfold splits_to, Split, metricSeparator, formatPart. simpl. intros Hsplit.
  pose proof (Join_genSplit ":" tok) as Hjoin.
  pose proof (genSplit_parts_free ":" tok) as Hfree.
  rewrite Hsplit in Hjoin, Hfree.
  apply Forall_cons in Hfree as [Hk Hfree]. apply Forall_cons in Hfree as [Hv _].
  by rewrite <-Hjoin.
Qed.

(** The outcome of the loop of [strToMetrics], read backwards. *)
Lemma strToMetrics_loop_inv toks :
  ∀ acc,
  match strToMetrics_loop toks acc with
  | Ok ms =>
      ∃ pairs, Forall2 splits_to toks pairs ∧ NoDup pairs.*1 ∧
        fresh_for acc pairs ∧ ms = list_to_map pairs ∪ acc
  | Err e =>
      ∃ pre bad post pairs,
        toks = pre ++ bad :: post ∧ Forall2 splits_to pre pairs ∧
        NoDup pairs.*1 ∧ fresh_for acc pairs ∧
        ((e = ErrMalformedToken bad ∧
          length (Split bad metricSeparator) ≠ 2) ∨
         (∃ m v, splits_to bad (m, v) ∧ e = ErrDuplicateMetric m ∧
            is_Some ((list_to_map pairs ∪ acc) !! m)))
  end.
Proof.
  induction toks as [|tok toks IH]; intros acc.
  - simpl. exists []. repeat split; [constructor|constructor| |].
    + by intros k ?%elem_of_nil.
    + simpl. by rewrite (left_id_L ∅ (∪)).
  - cbn [strToMetrics_loop].
    assert (Hbad : length (Split tok metricSeparator) ≠ 2 →
      ∃ pre bad post pairs,
        tok :: toks = pre ++ bad :: post ∧ Forall2 splits_to pre pairs ∧
        NoDup pairs.*1 ∧ fresh_for acc pairs ∧
        ((ErrMalformedToken tok = ErrMalformedToken bad ∧
          length (Split bad metricSeparator) ≠ 2) ∨
         (∃ m v, splits_to bad (m, v) ∧
            ErrMalformedToken tok = ErrDuplicateMetric m ∧
            is_Some ((list_to_map pairs ∪ acc) !! m)))).
    { intros Hlen. exists [], tok, toks, [].
      split; [done|]. split; [constructor|]. split; [constructor|].
      split; [by intros k ?%elem_of_nil|]. by left. }
    destruct (Split tok metricSeparator) as [|k [|v [|x l]]] eqn:Hsplit;
      try (apply Hbad; simpl; lia).
    clear Hbad. destruct (acc !! k) as [old|] eqn:Hk.
    + exists [], tok, toks, [].
      split; [done|]. split; [constructor|]. split; [constructor|].
      split; [by intros k' ?%elem_of_nil|]. right. exists k, v.
      split; [done|]. split; [done|].
      simpl. rewrite (left_id_L ∅ (∪)), Hk. by eexists.
    + specialize (IH (<[k := v]> acc)).
      assert (Hmap : ∀ pairs : list (string * string), k ∉ pairs.*1 →
                list_to_map pairs ∪ <[k := v]> acc =
                list_to_map ((k, v) :: pairs) ∪ acc).
      { intros pairs Hnotin. simpl. rewrite <-insert_union_l.
        symmetry. apply insert_union_r.
        by apply not_elem_of_list_to_map_1. }
      assert (Hfresh : ∀ pairs : list (string * string),
                fresh_for (<[k := v]> acc) pairs →
                (k ∉ pairs.*1) ∧ fresh_for acc ((k, v) :: pairs)).
      { intros pairs Hf. assert (Hnotin : k ∉ pairs.*1).
        { intros Hin. specialize (Hf _ Hin).
          by rewrite lookup_insert_eq in Hf. }
        split; [done|]. intros k' [->|Hin]%elem_of_cons; [done|].
        specialize (Hf _ Hin). destruct (decide (k = k')) as [->|Hne].
        - by rewrite lookup_insert_eq in Hf.
        - by rewrite lookup_insert_ne in Hf. }
      destruct (strToMetrics_loop toks (<[k := v]> acc)) as [ms|e].
      * destruct IH as (pairs & Htoks & Hnd & Hf & ->).
        destruct (Hfresh _ Hf) as [Hnotin Hf'].
        exists ((k, v) :: pairs). split; [by constructor|].
        split; [by apply NoDup_cons|]. split; [done|]. by apply Hmap.
      * destruct IH as (pre & bad & post & pairs & -> & Hpre & Hnd & Hf & He).
        destruct (Hfresh _ Hf) as [Hnotin Hf'].
        exists (tok :: pre), bad, post, ((k, v) :: pairs).
        split; [done|]. split; [by constructor|].
        split; [by apply NoDup_cons|]. split; [done|].
        destruct He as [He|(m & x & Hsp & He & Hsome)]; [by left|].
        right. exists m, x. split; [done|]. split; [done|].
        by rewrite <-Hmap.
Qed.

Lemma strToMetrics_pairs str ms :
  strToMetrics str = Ok ms →
  ∃ pairs, Forall2 splits_to (Split str partSeparator) pairs ∧
    NoDup pairs.*1 ∧ ms = list_to_map pairs.
Proof.
  unfold strToMetrics. intros Hok.
  pose proof (strToMetrics_loop_inv (Split str partSeparator) ∅) as Hinv.
  rewrite Hok in Hinv. destruct Hinv as (pairs & Htoks & Hnd & _ & ->).
  exists pairs. by rewrite (right_id_L ∅ (∪)).
Qed.

Lemma Forall2_splits_to_format toks pairs :
  Forall2 splits_to toks pairs → formatPart <$> pairs = toks.
Proof.
  induction 1 as [|tok [k v] toks pairs Htok _ IH]; [done|].
  rewrite fmap_cons, IH. f_equal. symmetry. by apply splits_to_inv.
Qed.

(** The pairs read from the tokens of a string hold no separator. *)
Lemma splits_to_sep_free str toks tok k v :
  Split str partSeparator = toks → tok ∈ toks → splits_to tok (k, v) →
  sep_free k = true ∧ sep_free v = true.
Proof.
  intros <- Hin Htok.
  pose proof (genSplit_parts_free "/" str) as Hfree.
  rewrite Forall_forall in Hfree. specialize (Hfree tok Hin). simpl in Hfree.
  destruct (splits_to_inv _ _ _ Htok) as (-> & Hk & Hv).
  unfold formatPart, metricSeparator in Hfree. simpl in Hfree.
  change (":" +:+ v) with (String ":" v) in Hfree.
  rewrite has_byte_app in Hfree. simpl in Hfree.
  apply orb_false_elim in Hfree as [Hk' Hv'].
  unfold sep_free. by rewrite Hk, Hv, Hk', Hv'.
Qed.

(** X1. When [strToMetrics] succeeds, every token of the input splits on
    [:] into exactly two parts, the names are pairwise distinct, and the map
    returned holds exactly these pairs: one entry per token. *)
Theorem strToMetrics_Ok_inv (str : string) (ms : Metrics) :
  strToMetrics str = Ok ms →
  ∃ pairs,
    Forall2 splits_to (Split str partSeparator) pairs ∧
    NoDup pairs.*1 ∧
    (∀ k v, ms !! k = Some v ↔ (k, v) ∈ pairs) ∧
    size ms = length (Split str partSeparator).
Proof.
  intros (pairs & Htoks & Hnd & ->)%strToMetrics_pairs.
  exists pairs. split; [done|]. split; [done|]. split.
  - intros k v. by apply lookup_pairs.
  - rewrite map_size_list_to_map by done. symmetry.
    by eapply Forall2_length.
Qed.

Lemma strToMetrics_Ok_inv_witness :
  ∃ pairs,
    Forall2 splits_to (Split "AV:N/C:H" partSeparator) pairs ∧
    NoDup pairs.*1 ∧
    (∀ k v, (<["AV" := "N"]> (<["C" := "H"]> ∅) : Metrics) !! k = Some v
            ↔ (k, v) ∈ pairs) ∧
    size (<["AV" := "N"]> (<["C" := "H"]> ∅) : Metrics) =
      length (Split "AV:N/C:H" partSeparator).
Proof.
  apply (strToMetrics_Ok_inv "AV:N/C:H" (<["AV" := "N"]> (<["C" := "H"]> ∅))).
  reflexivity.
Defined.

(** X2. An error of [strToMetrics] is never made up: MalformedToken names a
    token of the input that does not split on [:] into two parts, and
    DuplicateMetric names a metric that two tokens of the input carry. No
    other error is returned. *)
Theorem strToMetrics_Err_inv (str : string) (e : error) :
  strToMetrics str = Err e →
  (∃ part, e = ErrMalformedToken part ∧
     part ∈ Split str partSeparator ∧
     length (Split part metricSeparator) ≠ 2) ∨
  (∃ m i j ti tj vi vj, e = ErrDuplicateMetric m ∧ i < j ∧
     Split str partSeparator !! i = Some ti ∧
     Split str partSeparator !! j = Some tj ∧
     splits_to ti (m, vi) ∧ splits_to tj (m, vj)).
Proof.
  unfold strToMetrics. intros Herr.
  pose proof (strToMetrics_loop_inv (Split str partSeparator) ∅) as Hinv.
  rewrite Herr in Hinv.
  destruct Hinv as (pre & bad & post & pairs & Htoks & Hpre & Hnd & _ & He).
  rewrite Htoks. destruct He as [[-> Hlen]|(m & vj & Hbad & -> & [vi Hm])].
  - left. exists bad. split; [done|]. split; [|done].
    apply elem_of_app. right. left.
  - right. rewrite (right_id_L ∅ (∪)) in Hm.
    apply elem_of_list_to_map_2, list_elem_of_lookup in Hm as [i Hi].
    destruct (Forall2_lookup_r _ _ _ _ _ Hpre Hi) as (ti & Hti & Hsp).
    exists m, i, (length pre), ti, bad, vi, vj.
    split; [done|]. split; [by eapply lookup_lt_Some|].
    split; [by apply lookup_app_l_Some|].
    split; [by apply list_lookup_middle|]. done.
Qed.

Lemma strToMetrics_Err_inv_witness :
  (∃ part, ErrMalformedToken "C" = ErrMalformedToken part ∧
     part ∈ Split "A:B/C/A:D" partSeparator ∧
     length (Split part metricSeparator) ≠ 2) ∨
  (∃ m i j ti tj vi vj, ErrMalformedToken "C" = ErrDuplicateMetric m ∧ i < j ∧
     Split "A:B/C/A:D" partSeparator !! i = Some ti ∧
     Split "A:B/C/A:D" partSeparator !! j = Some tj ∧
     splits_to ti (m, vi) ∧ splits_to tj (m, vj)).
Proof.
  apply (strToMetrics_Err_inv "A:B/C/A:D" (ErrMalformedToken "C")).
  reflexivity.
Defined.

Lemma strToMetrics_Ok_nonempty str ms : strToMetrics str = Ok ms → ms ≠ ∅.
Proof.
  intros (pairs & Htoks & Hnd & ->)%strToMetrics_pairs.
  pose proof (genSplit_nonempty "/" str) as Hne.
  change (genSplit "/" 0 str) with (Split str partSeparator) in Hne.
  destruct Htoks as [|tok [k v] toks pairs _ _]; [done|].
  intros Hempty. apply (f_equal (λ m : Metrics, m !! k)) in Hempty.
  simpl in Hempty. by rewrite lookup_insert_eq, lookup_empty in Hempty.
Qed.

Lemma strToMetrics_Ok_entries str ms k v :
  strToMetrics str = Ok ms → ms !! k = Some v →
  sep_free k = true ∧ sep_free v = true.
Proof.
  intros (pairs & Htoks & Hnd & ->)%strToMetrics_pairs Hkv.
  apply elem_of_list_to_map_2 in Hkv.
  apply list_elem_of_lookup in Hkv as [i Hi].
  destruct (Forall2_lookup_r _ _ _ _ _ Htoks Hi) as (tok & Htok & Hsp).
  eapply splits_to_sep_free; [reflexivity| |exact Hsp].
  apply list_elem_of_lookup. by exists i.
Qed.

(** X3. A map that [strToMetrics] returns is never empty, and none of its
    names and values holds a [/] or a [:]. *)
Theorem strToMetrics_Ok_sep_free (str : string) (ms : Metrics) :
  strToMetrics str = Ok ms →
  ms ≠ ∅ ∧ map_Forall (λ k v, sep_free k = true ∧ sep_free v = true) ms.
Proof.
  intros Hok. split.
  - by eapply strToMetrics_Ok_nonempty.
  - intros k v Hkv. by eapply strToMetrics_Ok_entries.
Qed.

Lemma strToMetrics_Ok_sep_free_witness :
  (<["AV" := "N"]> (<["C" := "H"]> ∅) : Metrics) ≠ ∅ ∧
  map_Forall (λ k v, sep_free k = true ∧ sep_free v = true)
    (<["AV" := "N"]> (<["C" := "H"]> ∅) : Metrics).
Proof.
  apply (strToMetrics_Ok_sep_free "AV:N/C:H"). reflexivity.
Defined.

(** X4. A string that [strToMetrics] accepts is one of the strings [String]
    gives for the map returned (its tokens in the order they were read), and
    whatever string [String] gives for that map parses back to the map. *)
Theorem strToMetrics_String_round_trip (str : string) (ms : Metrics) :
  strToMetrics str = Ok ms →
  Metrics_String ms str ∧
  ∀ s, Metrics_String ms s → strToMetrics s = Ok ms.
Proof.
  intros Hok. split.
  - destruct (strToMetrics_pairs _ _ Hok) as (pairs & Htoks & Hnd & ->).
    assert (Hstr : str = String_in pairs).
    { unfold String_in. rewrite (Forall2_splits_to_format _ _ Htoks).
      symmetry. apply (Join_genSplit "/"). }
    rewrite Hstr. constructor. unfold range. symmetry.
    by apply map_to_list_to_map.
  - pose proof (strToMetrics_Ok_nonempty _ _ Hok) as Hne.
    pose proof (strToMetrics_Ok_entries str ms) as Hfree.
    intros s [order Horder]. rewrite strToMetrics_String_in.
    + f_equal. by apply range_list_to_map.
    + intros ->. apply Hne. unfold range in Horder. symmetry in Horder.
      apply Permutation_nil_r in Horder. by apply map_to_list_empty_iff.
    + apply Forall_forall. intros [k v] Hkv.
      apply (range_elem_of _ _ _ _ Horder) in Hkv. by apply (Hfree k v).
    + by eapply range_NoDup.
Qed.

Lemma strToMetrics_String_round_trip_witness :
  Metrics_String (<["AV" := "N"]> (<["C" := "H"]> ∅)) "AV:N/C:H" ∧
  ∀ s, Metrics_String (<["AV" := "N"]> (<["C" := "H"]> ∅)) s →
       strToMetrics s = Ok (<["AV" := "N"]> (<["C" := "H"]> ∅)).
Proof.
  apply (strToMetrics_String_round_trip "AV:N/C:H"). reflexivity.
Defined.

(** * What [Parse] does to the vector *)

Lemma apply_pairs_union pairs ms :
  NoDup pairs.*1 → apply_pairs ms pairs = list_to_map pairs ∪ ms.
Proof.
  intros Hnd. apply map_eq. intros k.
  destruct ((list_to_map pairs : Metrics) !! k) as [v|] eqn:Hk.
  - rewrite (lookup_union_Some_l _ _ _ _ Hk).
    apply apply_pairs_in; [done|]. by apply elem_of_list_to_map_2.
  - rewrite lookup_union_r by done. apply apply_pairs_notin.
    by apply not_elem_of_list_to_map.
Qed.

Lemma apply_pairs_lookup_inv pairs k v :
  ∀ ms, apply_pairs ms pairs !! k = Some v →
  ms !! k = Some v ∨ (k, v) ∈ pairs.
Proof.
  induction pairs as [|[k' v'] pairs IH]; intros ms Hk; [by left|].
  simpl in Hk. destruct (IH _ Hk) as [Hins|Hin].
  - destruct (decide (k' = k)) as [->|Hne].
    + rewrite lookup_insert_eq in Hins. injection Hins as ->. right. left.
    + rewrite lookup_insert_ne in Hins by done. by left.
  - right. by right.
Qed.

Lemma range_accepted w metrics order :
  range metrics order →
  map_Forall (λ k v, accepted w (k, v)) metrics ↔ Forall (accepted w) order.
Proof.
  intros Horder. rewrite Forall_forall. split.
  - intros Hall [k v] Hkv. apply (Hall k v).
    by apply (range_elem_of _ _ _ _ Horder).
  - intros Hall k v Hkv. apply (Hall (k, v)).
    by apply (range_elem_of _ _ _ _ Horder).
Qed.


(** A run of [Parse] that returns no error. *)
Lemma WeightsMetrics_Parse_nil_inv wms str wms' :
  WeightsMetrics_Parse wms str wms' None →
  ∃ metrics, strToMetrics str = Ok metrics ∧
    map_Forall (λ k v, accepted (Weights wms) (k, v)) metrics ∧
    wms' = with_Metrics wms (metrics ∪ wmMetrics wms).
Proof.
  inversion 1 as [|metrics order wms1 r Hok Horder Hloop]; subst.
  exists metrics. split; [done|].
  destruct (Parse_loop_inv _ _ _ _ Hloop) as [_ [Hacc _]].
  split; [by apply (range_accepted _ _ _ Horder)|].
  rewrite (Parse_loop_accepted _ _ Hacc) in Hloop. injection Hloop as <-.
  rewrite apply_pairs_union by (by eapply range_NoDup).
  by rewrite (range_list_to_map _ _ Horder).
Qed.

(** When every parsed pair passes, every run returns no error. *)
Lemma WeightsMetrics_Parse_accepted_inv wms str metrics wms' r :
  strToMetrics str = Ok metrics →
  map_Forall (λ k v, accepted (Weights wms) (k, v)) metrics →
  WeightsMetrics_Parse wms str wms' r → r = None.
Proof.
  intros Hok Hall.
  inversion 1 as [e He|metrics' order wms1 r1 Hok' Horder Hloop]; subst;
    [congruence|].
  rewrite Hok in Hok'. injection Hok' as <-.
  apply (range_accepted _ _ _ Horder) in Hall.
  rewrite (Parse_loop_accepted _ _ Hall) in Hloop. by injection Hloop.
Qed.

Lemma example_Parse :
  WeightsMetrics_Parse example_wms "AV:N" example_parsed None.
Proof.
  apply (Parse_range example_wms "AV:N" (<["AV" := "N"]> ∅) [("AV", "N")]).
  - reflexivity.
  - unfold range. vm_compute. apply Permutation_refl.
  - reflexivity.
Defined.

Lemma example_all_accepted :
  map_Forall (λ k v, accepted example_weights (k, v))
    (<["AV" := "N"]> ∅ : Metrics).
Proof.
  apply map_Forall_insert_2; [|apply map_Forall_empty].
  exists example_AV. split; [reflexivity|]. exists 0.85%float. reflexivity.
Defined.



(** X6. Whether [Parse] fails does not depend on the order of the visit: a
    run returns no error exactly when the string parses cleanly and every
    parsed pair passes the checks of [Set]. *)
Theorem WeightsMetrics_Parse_nil_iff
    (wms : WeightsMetrics) (str : string) (wms' : WeightsMetrics)
    (r : option error) :
  WeightsMetrics_Parse wms str wms' r →
  r = None ↔
  ∃ metrics, strToMetrics str = Ok metrics ∧
    map_Forall (λ k v, accepted (Weights wms) (k, v)) metrics.
Proof.
  intros Hrun. split.
  - intros ->.
    apply WeightsMetrics_Parse_nil_inv in Hrun as (metrics & Hok & Hall & _).
    by exists metrics.
  - intros (metrics & Hok & Hall).
    by eapply WeightsMetrics_Parse_accepted_inv.
Qed.

Lemma WeightsMetrics_Parse_nil_iff_witness :
  (None : option error) = None ↔
  ∃ metrics, strToMetrics "AV:N" = Ok metrics ∧
    map_Forall (λ k v, accepted (Weights example_wms) (k, v)) metrics.
Proof.
  apply (WeightsMetrics_Parse_nil_iff example_wms "AV:N" example_parsed None).
  exact example_Parse.
Defined.

(** X7. Which error a failing [Parse] reports depends on the order of the
    visit: for each parsed pair that [Set] rejects there is a run that meets
    it first, reports its error and stores nothing. *)
Theorem WeightsMetrics_Parse_any_rejected
    (wms : WeightsMetrics) (str : string) (metrics : Metrics)
    (m v : string) :
  strToMetrics str = Ok metrics →
  metrics !! m = Some v →
  ¬ accepted (Weights wms) (m, v) →
  ∃ e, (e = ErrUnknownMetric m ∨ e = ErrInvalidValue m v) ∧
    WeightsMetrics_Parse wms str wms (Some (ErrWrap (CtxSet m v) e)).
Proof.
  intros Hok Hm Hrej.
  destruct (Parse_loop_rejected [] m v (map_to_list (delete m metrics)) wms)
    as (e & He & Hloop); [constructor|done|].
  exists e. split; [done|].
  apply (Parse_range _ _ metrics ((m, v) :: map_to_list (delete m metrics)));
    [exact Hok| |].
  - unfold range. by apply map_to_list_delete.
  - simpl app in Hloop. rewrite Hloop. by destruct wms.
Qed.

Lemma WeightsMetrics_Parse_any_rejected_witness :
  ∃ e, (e = ErrUnknownMetric "XX" ∨ e = ErrInvalidValue "XX" "Y") ∧
    WeightsMetrics_Parse example_wms "AV:N/XX:Y" example_wms
      (Some (ErrWrap (CtxSet "XX" "Y") e)).
Proof.
  apply (WeightsMetrics_Parse_any_rejected example_wms "AV:N/XX:Y"
           (<["XX" := "Y"]> (<["AV" := "N"]> ∅)) "XX" "Y").
  - reflexivity.
  - reflexivity.
  - intros (values & Hm & _). vm_compute in Hm. discriminate Hm.
Defined.

(** X8. After a [Parse] that returned no error, every metric of the string
    has its weight: [Get] returns the parsed value, and [Weight], [WeightMust]
    and [WeightDefault] return the weight the table holds for it. *)
Theorem WeightsMetrics_Parse_then_Weight
    (wms : WeightsMetrics) (str : string) (metrics : Metrics)
    (wms' : WeightsMetrics) (k v : string) :
  strToMetrics str = Ok metrics →
  WeightsMetrics_Parse wms str wms' None →
  metrics !! k = Some v →
  ∃ values w,
    Weights wms' !! k = Some values ∧ values !! v = Some w ∧
    Metrics_Get (wmMetrics wms') k = Ok v ∧
    WeightsMetrics_Weight wms' k = Ok w ∧
    WeightsMetrics_WeightMust wms' k = Returns w ∧
    ∀ def, WeightsMetrics_WeightDefault wms' k def = w.
Proof.
  intros Hok Hrun Hk.
  apply WeightsMetrics_Parse_nil_inv in Hrun as (metrics' & Hok' & Hall & ->).
  rewrite Hok in Hok'. injection Hok' as <-.
  destruct (Hall k v Hk) as (values & Hm & [w Hv]). simpl in Hm, Hv.
  exists values, w.
  unfold WeightsMetrics_WeightDefault, WeightsMetrics_WeightMust,
    WeightsMetrics_Weight, Metrics_Get, index2. simpl.
  rewrite (lookup_union_Some_l _ _ _ _ Hk), Hm, Hv. by repeat split.
Qed.

Lemma WeightsMetrics_Parse_then_Weight_witness :
  ∃ values w,
    Weights example_parsed !! "AV" = Some values ∧ values !! "N" = Some w ∧
    Metrics_Get (wmMetrics example_parsed) "AV" = Ok "N" ∧
    WeightsMetrics_Weight example_parsed "AV" = Ok w ∧
    WeightsMetrics_WeightMust example_parsed "AV" = Returns w ∧
    ∀ def, WeightsMetrics_WeightDefault example_parsed "AV" def = w.
Proof.
  apply (WeightsMetrics_Parse_then_Weight example_wms "AV:N"
           (<["AV" := "N"]> ∅) example_parsed "AV" "N").
  - reflexivity.
  - exact example_Parse.
  - reflexivity.
Defined.

(** X9. Whatever [Parse] returns, it leaves the table of weights as it was,
    removes no metric from the vector, and every entry of the vector after
    the call was there before or is a pair of the string that passed the
    checks of [Set]. *)
Theorem WeightsMetrics_Parse_frame
    (wms : WeightsMetrics) (str : string) (wms' : WeightsMetrics)
    (r : option error) :
  WeightsMetrics_Parse wms str wms' r →
  Weights wms' = Weights wms ∧
  (∀ k, is_Some (wmMetrics wms !! k) → is_Some (wmMetrics wms' !! k)) ∧
  (∀ k v, wmMetrics wms' !! k = Some v →
     wmMetrics wms !! k = Some v ∨
     ∃ metrics, strToMetrics str = Ok metrics ∧ metrics !! k = Some v ∧
       accepted (Weights wms) (k, v)).
Proof.
  intros Hrun. split; [|split].
  - destruct Hrun as [e _|metrics order wms1 r1 _ _ Hloop]; [done|].
    by apply Parse_loop_inv in Hloop as [Hw _].
  - intros k Hk. apply (set_metric_stays_set wms wms' k Hk).
    right. by exists str, r.
  - intros k v Hk.
    destruct Hrun as [e _|metrics order wms1 r1 Hok Horder Hloop]; [by left|].
    apply Parse_loop_inv in Hloop as [_ Hloop].
    assert (∃ applied, wmMetrics wms1 =
                     apply_pairs (wmMetrics wms) applied ∧
                     Forall (accepted (Weights wms)) applied ∧
                     applied ⊆ order) as (applied & Hms & Hacc & Hincl).
    { destruct r1 as [err|].
      - destruct Hloop as (applied & m & x & skipped & e & -> & Hacc & _ & _
                           & _ & _ & Hms).
        exists applied. split; [done|]. split; [done|].
        intros kv Hkv. apply elem_of_app. by left.
      - destruct Hloop as [Hacc Hms]. by exists order. }
    rewrite Hms in Hk. apply apply_pairs_lookup_inv in Hk as [Hold|Hin];
      [by left|].
    right. exists metrics. split; [done|]. split.
    + apply (range_elem_of _ _ _ _ Horder). by apply Hincl.
    + rewrite Forall_forall in Hacc. by apply Hacc.
Qed.

Lemma WeightsMetrics_Parse_frame_witness :
  Weights example_parsed = Weights example_wms ∧
  (∀ k, is_Some (wmMetrics example_wms !! k) →
        is_Some (wmMetrics example_parsed !! k)) ∧
  (∀ k v, wmMetrics example_parsed !! k = Some v →
     wmMetrics example_wms !! k = Some v ∨
     ∃ metrics, strToMetrics "AV:N" = Ok metrics ∧ metrics !! k = Some v ∧
       accepted (Weights example_wms) (k, v)).
Proof.
  apply (WeightsMetrics_Parse_frame example_wms "AV:N" example_parsed None).
  exact example_Parse.
Defined.

(** X10. Parsing the same string again after a [Parse] that returned no
    error returns no error and changes nothing. *)
Theorem WeightsMetrics_Parse_twice
    (wms : WeightsMetrics) (str : string) (wms1 wms2 : WeightsMetrics)
    (r : option error) :
  WeightsMetrics_Parse wms str wms1 None →
  WeightsMetrics_Parse wms1 str wms2 r →
  r = None ∧ wms2 = wms1.
Proof.
  intros Hfirst Hsecond.
  apply WeightsMetrics_Parse_nil_inv in Hfirst as (metrics & Hok & Hall & ->).
  pose proof (WeightsMetrics_Parse_accepted_inv
                (with_Metrics wms (metrics ∪ wmMetrics wms))
                _ _ _ _ Hok Hall Hsecond) as ->.
  split; [done|].
  apply WeightsMetrics_Parse_nil_inv in Hsecond
    as (metrics' & Hok' & _ & ->).
  rewrite Hok in Hok'. injection Hok' as <-.
  unfold with_Metrics. simpl. f_equal.
  by rewrite (assoc_L (∪)), (idemp_L (∪)).
Qed.

Lemma WeightsMetrics_Parse_twice_witness :
  (None : option error) = None ∧ example_parsed = example_parsed.
Proof.
  apply (WeightsMetrics_Parse_twice example_wms "AV:N"
           example_parsed example_parsed None).
  - exact example_Parse.
  - apply (Parse_range example_parsed "AV:N" (<["AV" := "N"]> ∅)
             [("AV", "N")]).
    + reflexivity.
    + unfold range. vm_compute. apply Permutation_refl.
    + reflexivity.
Defined.

(** * Set, Weight and WeightMust together *)

(** X11. In a state reached through [Set] and [Parse], [WeightMust] panics
    exactly for the metrics that are not set, with the wrapped NotFound of
    [Get]; for a metric that is set it returns the weight the table holds
    for the stored value. *)
Theorem WeightsMetrics_WeightMust_reachable
    (wms : WeightsMetrics) (metric : string) :
  reachable wms →
  (wmMetrics wms !! metric = None ↔
     ∃ e, WeightsMetrics_WeightMust wms metric = Panics e) ∧
  (wmMetrics wms !! metric = None →
     WeightsMetrics_WeightMust wms metric =
       Panics (ErrWrap (CtxGet metric) (ErrNotFound metric))) ∧
  (∀ v, wmMetrics wms !! metric = Some v →
     ∃ values w, Weights wms !! metric = Some values ∧
       values !! v = Some w ∧
       WeightsMetrics_WeightMust wms metric = Returns w).
Proof.
  intros Hvalid%reachable_valid.
  unfold WeightsMetrics_WeightMust, WeightsMetrics_Weight, Metrics_Get.
  split; [|split].
  - destruct (wmMetrics wms !! metric) as [v|]; split; try done.
    + by intros [e ?].
    + intros _. by eexists.
  - by intros ->.
  - intros v Hm. destruct (Hvalid metric v Hm) as (values & Hw & [w Hv]).
    simpl in Hw, Hv. exists values, w. rewrite Hm. unfold index2.
    by rewrite Hw, Hv.
Qed.

Lemma WeightsMetrics_WeightMust_reachable_witness :
  (wmMetrics example_parsed !! "AV" = None ↔
     ∃ e, WeightsMetrics_WeightMust example_parsed "AV" = Panics e) ∧
  (wmMetrics example_parsed !! "AV" = None →
     WeightsMetrics_WeightMust example_parsed "AV" =
       Panics (ErrWrap (CtxGet "AV") (ErrNotFound "AV"))) ∧
  (∀ v, wmMetrics example_parsed !! "AV" = Some v →
     ∃ values w, Weights example_parsed !! "AV" = Some values ∧
       values !! v = Some w ∧
       WeightsMetrics_WeightMust example_parsed "AV" = Returns w).
Proof.
  apply (WeightsMetrics_WeightMust_reachable example_parsed "AV").
  apply (reach_Parse example_wms "AV:N" example_parsed None).
  - apply reach_new.
  - exact example_Parse.
Defined.

(** X12. After a [Set] that returned no error, [Weight] of that metric is
    the weight the table holds for the value, and [Weight] of every other
    metric is what it was. *)
Theorem WeightsMetrics_Set_then_Weight
    (wms : WeightsMetrics) (m v : string) (wms' : WeightsMetrics) :
  WeightsMetrics_Set wms m v = (wms', None) →
  (∃ values w, Weights wms !! m = Some values ∧ values !! v = Some w ∧
     WeightsMetrics_Weight wms' m = Ok w) ∧
  (∀ m', m' ≠ m →
     WeightsMetrics_Weight wms' m' = WeightsMetrics_Weight wms m').
Proof.
  intros Hset.
  destruct (WeightsMetrics_Set_inv _ _ _ _ _ Hset)
    as [Hw [(_ & (values & Hm & [w Hv]) & Hms)|(_ & _ & [He|He])]];
    [|discriminate He|discriminate He].
  simpl in Hm, Hv, Hms.
  unfold WeightsMetrics_Weight, Metrics_Get, index2. rewrite Hw, Hms. split.
  - exists values, w. by rewrite lookup_insert_eq, Hm, Hv.
  - intros m' Hne. by rewrite lookup_insert_ne.
Qed.

Lemma WeightsMetrics_Set_then_Weight_witness :
  (∃ values w, Weights example_wms !! "AV" = Some values ∧
     values !! "A" = Some w ∧
     WeightsMetrics_Weight
       (with_Metrics example_wms (<["AV" := "A"]> ∅)) "AV" = Ok w) ∧
  (∀ m', m' ≠ "AV" →
     WeightsMetrics_Weight (with_Metrics example_wms (<["AV" := "A"]> ∅)) m' =
     WeightsMetrics_Weight example_wms m').
Proof.
  apply (WeightsMetrics_Set_then_Weight example_wms "AV" "A").
  reflexivity.
Defined.

(** X13. [Set] does not look at what the vector holds: a [Set] of a metric
    that an earlier [Set] stored overwrites the value, and the vector is the
    one the second [Set] alone would have left. *)
Theorem WeightsMetrics_Set_last_wins
    (wms : WeightsMetrics) (m v1 v2 : string) (wms1 wms2 : WeightsMetrics) :
  WeightsMetrics_Set wms m v1 = (wms1, None) →
  WeightsMetrics_Set wms1 m v2 = (wms2, None) →
  WeightsMetrics_Set wms m v2 = (wms2, None) ∧
  Metrics_Get (wmMetrics wms2) m = Ok v2.
Proof.
  unfold WeightsMetrics_Set, Metrics_Get. simpl.
  destruct (Weights wms !! m) as [values|] eqn:Hm; [|done].
  destruct (values !! v1) as [w1|]; [|done]. intros [= <-]. simpl.
  rewrite Hm. destruct (values !! v2) as [w2|]; [|done]. intros [= <-].
  unfold with_Metrics. simpl. by rewrite insert_insert_eq, lookup_insert_eq.
Qed.

Lemma WeightsMetrics_Set_last_wins_witness :
  WeightsMetrics_Set example_wms "AV" "N" = (example_parsed, None) ∧
  Metrics_Get (wmMetrics example_parsed) "AV" = Ok "N".
Proof.
  apply (WeightsMetrics_Set_last_wins example_wms "AV" "A" "N"
           (with_Metrics example_wms (<["AV" := "A"]> ∅)) example_parsed).
  - reflexivity.
  - vm_compute. reflexivity.
Defined.

(** * String then Parse *)

Lemma example_parsed_valid : valid example_parsed.
Proof. exact example_all_accepted. Defined.

Lemma example_names_sep_free : names_sep_free example_weights.
Proof.
  intros [k v] (values & Hk & Hv). simpl in *.
  unfold example_weights in Hk.
  apply lookup_singleton_Some in Hk as [<- <-]. unfold example_AV in Hv.
  apply lookup_insert_is_Some in Hv as [<-|[_ Hv]].
  - by split.
  - apply lookup_singleton_is_Some in Hv as <-. by split.
Defined.

(** X14. A valid, non-empty vector can be copied through its string: when
    no name of the table holds a separator, whatever [String] gives for the
    vector is parsed by [Parse], on an empty vector with the same table,
    without error and into the same vector. *)
Theorem String_then_Parse
    (wms : WeightsMetrics) (s : string) (wms' : WeightsMetrics)
    (r : option error) :
  valid wms → names_sep_free (Weights wms) → wmMetrics wms ≠ ∅ →
  Metrics_String (wmMetrics wms) s →
  WeightsMetrics_Parse (with_Metrics wms ∅) s wms' r →
  r = None ∧ wms' = wms.
Proof.
  intros Hvalid Hfree Hne [order Horder] Hrun.
  assert (Hok : strToMetrics (String_in order) = Ok (wmMetrics wms)).
  { rewrite strToMetrics_String_in.
    - f_equal. by apply range_list_to_map.
    - intros ->. apply Hne. unfold range in Horder. symmetry in Horder.
      apply Permutation_nil_r in Horder. by apply map_to_list_empty_iff.
    - apply Forall_forall. intros [k v] Hkv.
      apply (range_elem_of _ _ _ _ Horder) in Hkv.
      apply (Hfree (k, v)). by apply (Hvalid k v).
    - by eapply range_NoDup. }
  pose proof (WeightsMetrics_Parse_accepted_inv (with_Metrics wms ∅)
                _ _ _ _ Hok Hvalid Hrun) as ->.
  split; [done|].
  apply WeightsMetrics_Parse_nil_inv in Hrun as (metrics & Hok' & _ & ->).
  rewrite Hok in Hok'. injection Hok' as <-.
  destruct wms as [ms w]. unfold with_Metrics. simpl.
  by rewrite (right_id_L ∅ (∪)).
Qed.

Lemma String_then_Parse_witness :
  (None : option error) = None ∧ example_parsed = example_parsed.
Proof.
  apply (String_then_Parse example_parsed "AV:N" example_parsed None).
  - exact example_parsed_valid.
  - exact example_names_sep_free.
  - intros Heq. apply (f_equal (λ m : Metrics, m !! "AV")) in Heq.
    vm_compute in Heq. discriminate Heq.
  - apply (String_range _ [("AV", "N")]). unfold range. vm_compute.
    apply Permutation_refl.
  - exact example_Parse.
Defined.

(** * The errors of [Parse] *)

(** X15. An error of [Parse] is the wrapped error of [strToMetrics], with the
    vector left as it was, or it names a pair of the string with the reason
    [Set] rejected it: the metric is not a key of the table, or the value is
    not a key of the metric's weights. *)
Theorem WeightsMetrics_Parse_errors
    (wms : WeightsMetrics) (str : string) (wms' : WeightsMetrics)
    (err : error) :
  WeightsMetrics_Parse wms str wms' (Some err) →
  (∃ e, strToMetrics str = Err e ∧ err = ErrWrap CtxParse e ∧ wms' = wms) ∨
  (∃ metrics m v, strToMetrics str = Ok metrics ∧ metrics !! m = Some v ∧
     ((Weights wms !! m = None ∧
       err = ErrWrap (CtxSet m v) (ErrUnknownMetric m)) ∨
      (∃ values, Weights wms !! m = Some values ∧ values !! v = None ∧
         err = ErrWrap (CtxSet m v) (ErrInvalidValue m v)))).
Proof.
  inversion 1 as [e He|metrics order wms1 r Hok Horder Hloop]; subst.
  - left. by exists e.
  - right. apply Parse_loop_inv in Hloop
      as (Hw & applied & m & v & skipped & e & -> & _ & _ & Hfail & _ & ->
          & _).
    exists metrics, m, v. split; [done|]. split.
    { apply (range_elem_of _ _ _ _ Horder), elem_of_app. right. left. }
    unfold WeightsMetrics_Set in Hfail. rewrite Hw in Hfail.
    destruct (Weights wms !! m) as [values|]; [|left; by injection Hfail as <-].
    right. exists values. split; [done|].
    destruct (values !! v) as [w|]; [done|]. by injection Hfail as <-.
Qed.

Lemma WeightsMetrics_Parse_errors_witness :
  (∃ e, strToMetrics "AV:N/AV:A" = Err e ∧
     ErrWrap CtxParse (ErrDuplicateMetric "AV") = ErrWrap CtxParse e ∧
     example_wms = example_wms) ∨
  (∃ metrics m v, strToMetrics "AV:N/AV:A" = Ok metrics ∧
     metrics !! m = Some v ∧
     ((Weights example_wms !! m = None ∧
       ErrWrap CtxParse (ErrDuplicateMetric "AV") =
         ErrWrap (CtxSet m v) (ErrUnknownMetric m)) ∨
      (∃ values, Weights example_wms !! m = Some values ∧
         values !! v = None ∧
         ErrWrap CtxParse (ErrDuplicateMetric "AV") =
           ErrWrap (CtxSet m v) (ErrInvalidValue m v)))).
Proof.
  apply (WeightsMetrics_Parse_errors example_wms "AV:N/AV:A" example_wms
           (ErrWrap CtxParse (ErrDuplicateMetric "AV"))).
  apply (Parse_raw example_wms "AV:N/AV:A"). reflexivity.
Defined.
